(** * The HHL tutorial notebook [linear_systems_of_equations.ipynb]

    The notebook builds one configuration dictionary [params], rebinds it
    under the names [params2] ... [params5], replaces some of its sections
    before each call of the external solver [run_algorithm], and prints the
    solver's result next to the classical solution and their fidelity.

    The development embeds
    - the Python store the cells act on (variables, dictionary objects,
      references), with the cells as a list of statements;
    - the printing code of the run cells ([np.round], the [%f] format, the
      function [fidelity] of cell 2), read over the real numbers.

    The solver [run_algorithm] and the classical solver [ExactLSsolver]
    belong to the Qiskit library and are not modelled: a run is recorded
    as the call it makes, with the configuration it is given, and nothing
    is stated about what the solver returns.  The numpy arithmetic of the
    printing code is double-precision; over the reals only those of its
    properties are stated that do not depend on rounding. *)

From Stdlib Require Import Reals Lra Lia ZArith List.
From stdpp Require Import gmap strings list fin_maps.

Open Scope string_scope.

(** ** Python values and the store *)

Module Py.

(** Locations of dictionary objects. *)
Definition loc := nat.

(** The values the cells store: literals, the (never mutated) lists bound
    to [matrix] and [vector], and references to dictionary objects. *)
Inductive value :=
  | VStr (s : string)
  | VInt (z : Z)
  | VFloat (num : Z) (den : positive)
  | VBool (b : bool)
  | VVec (v : list Z)
  | VMat (m : list (list Z))
  | VRef (l : loc).

#[global] Instance value_eq_dec : EqDecision value.
Proof. solve_decision. Defined.

(** A dictionary object maps keys to values. *)
Abbreviation dict := (gmap string value).

Record store := mkStore {
  vars : gmap string value;   (* the notebook's global variables *)
  heap : gmap loc dict;        (* the dictionary objects *)
  next : loc                   (* the next fresh location *)
}.

Definition empty_store : store := mkStore ∅ ∅ 0.

(** An entry of a dictionary literal: a literal value or a variable. *)
Inductive entry :=
  | Lit (v : value)
  | Var (x : string).

(** A literal [{k1: e1, ...}] whose entries are not dictionaries. *)
Abbreviation section_lit := (list (string * entry)).

Inductive stmt :=
  (* [x = {s1: {...}, s2: {...}, ...}] *)
  | SNewDict (x : string) (sections : list (string * section_lit))
  (* [x = v] for a list literal *)
  | SAssign (x : string) (v : value)
  (* [x = y] *)
  | SAlias (x y : string)
  (* [x[k] = {...}] *)
  | SSetSection (x k : string) (d : section_lit)
  (* [result = run_algorithm(x)] followed by the printing block, which
     calls [ExactLSsolver(matrix, vector)]; the solver reads the
     dictionary and leaves the store as it is *)
  | SRun (x : string).

Definition eval_entry (σ : store) (e : entry) : option value :=
  match e with
  | Lit v => Some v
  | Var x => vars σ !! x
  end.

(** Evaluating a section literal: entries left to right, later keys win. *)
Fixpoint eval_section (σ : store) (d : section_lit) : option dict :=
  match d with
  | [] => Some ∅
  | (k, e) :: d' =>
      v ← eval_entry σ e;
      m ← eval_section σ d';
      Some (match m !! k with Some _ => m | None => <[k := v]> m end)
  end.

(** Allocation of a fresh dictionary object. *)
Definition alloc (σ : store) (d : dict) : loc * store :=
  (next σ, mkStore (vars σ) (<[next σ := d]> (heap σ)) (S (next σ))).

(** [obj[k] = {...}]: a fresh object for the literal, a reference to it
    stored under [k] in the object at [l]. *)
Definition set_section (σ : store) (l : loc) (k : string) (d : section_lit)
  : option store :=
  m ← eval_section σ d;
  let '(l', σ') := alloc σ m in
  o ← heap σ' !! l;
  Some (mkStore (vars σ') (<[l := <[k := VRef l']> o]> (heap σ')) (next σ')).

Fixpoint set_sections (σ : store) (l : loc)
    (ss : list (string * section_lit)) : option store :=
  match ss with
  | [] => Some σ
  | (k, d) :: ss' => σ' ← set_section σ l k d; set_sections σ' l ss'
  end.

(** A configuration as the solver reads it: sections with their options. *)
Abbreviation config := (gmap string dict).

(** Reading the dictionary at [l] with its sections dereferenced. *)
Definition snapshot (σ : store) (l : loc) : option config :=
  o ← (heap σ !! l : option dict);
  Some (omap (λ v, match v with VRef l' => heap σ !! l' | _ => None end) o
          : config).

(** One call of the solver, as the printing block sees it. *)
Record call := mkCall {
  call_arg : string;          (* the variable passed to [run_algorithm] *)
  call_config : config;
  call_matrix : list (list Z);
  call_vector : list Z
}.

#[global] Instance call_eq_dec : EqDecision call.
Proof. solve_decision. Defined.

Definition exec_stmt (s : stmt) (st : store * list call)
  : option (store * list call) :=
  let '(σ, tr) := st in
  match s with
  | SNewDict x ss =>
      let '(l, σ1) := alloc σ ∅ in
      σ2 ← set_sections σ1 l ss;
      Some (mkStore (<[x := VRef l]> (vars σ2)) (heap σ2) (next σ2), tr)
  | SAssign x v =>
      Some (mkStore (<[x := v]> (vars σ)) (heap σ) (next σ), tr)
  | SAlias x y =>
      v ← vars σ !! y;
      Some (mkStore (<[x := v]> (vars σ)) (heap σ) (next σ), tr)
  | SSetSection x k d =>
      v ← vars σ !! x;
      match v with
      | VRef l => σ' ← set_section σ l k d; Some (σ', tr)
      | _ => None
      end
  | SRun x =>
      v ← vars σ !! x;
      match v, vars σ !! "matrix", vars σ !! "vector" with
      | VRef l, Some (VMat A), Some (VVec b) =>
          c ← snapshot σ l; Some (σ, (tr ++ [mkCall x c A b])%list)
      | _, _, _ => None
      end
  end.

Fixpoint exec (p : list stmt) (st : store * list call)
  : option (store * list call) :=
  match p with
  | [] => Some st
  | s :: p' => st' ← exec_stmt s st; exec p' st'
  end.

Definition run (p : list stmt) : option (store * list call) :=
  exec p (empty_store, []).

(** The calls a program makes, in order. *)
Definition calls (p : list stmt) : list call :=
  match run p with Some (_, tr) => tr | None => [] end.

(** The variables left by a program. *)
Definition final_vars (p : list stmt) : gmap string value :=
  match run p with Some (σ, _) => vars σ | None => ∅ end.

(** An option of a configuration: [c[sec][key]]. *)
Definition setting (c : config) (sec key : string) : option value :=
  d ← c !! sec; d !! key.

(** The configuration the run of [y] is given. *)
Definition config_seen_by (y : string) (p : list stmt) : option config :=
  call_config <$> List.find (λ c, bool_decide (call_arg c = y)) (calls p).

(** The section assignments [x[k] = {...}] made through the name [x]. *)
Definition assigns_through (x : string) (s : stmt) : bool :=
  match s with
  | SSetSection y _ _ => bool_decide (x = y)
  | _ => false
  end.

(** The program without the section assignments made through [x]. *)
Definition without (x : string) (p : list stmt) : list stmt :=
  List.filter (λ s, negb (assigns_through x s)) p.

(** The names introduced by [x = y] for a run of their own. *)
Definition run_names (p : list stmt) : list string :=
  omap (λ s, match s with SAlias x _ => Some x | _ => None end) p.

(** Runs are isolated when the configuration a run is given does not
    depend on the section assignments made through the name of another
    run. *)
Definition isolated (p : list stmt) : Prop :=
  ∀ x y, x ∈ run_names p → x ≠ y →
    config_seen_by y (without x p) = config_seen_by y p.

End Py.

(** ** The cells of the notebook *)

Module Notebook.
Import Py.

Definition str (x : string) : entry := Lit (VStr x).
Definition int (z : Z) : entry := Lit (VInt z).
Definition yes : entry := Lit (VBool true).
Definition no : entry := Lit (VBool false).

(** Cell 2: the configuration dictionary. *)
Definition cell2 : list stmt :=
  [ SNewDict "params"
      [ ("problem", [("name", str "linear_system")]);
        ("algorithm", [("name", str "HHL")]);
        ("eigs", [("expansion_mode", str "suzuki");
                  ("expansion_order", int 2);
                  ("name", str "EigsQPE");
                  ("num_ancillae", int 3);
                  ("num_time_slices", int 50)]);
        ("reciprocal", [("name", str "Lookup")]);
        ("backend", [("provider", str "qiskit.BasicAer");
                     ("name", str "statevector_simulator")]) ] ].

Definition input_lit : section_lit :=
  [("name", str "LinearSystemInput"); ("matrix", Var "matrix");
   ("vector", Var "vector")].

Definition matrix2d : list (list Z) := [[1; 0]; [0; 2]]%Z.
Definition vector2d : list Z := [1; 4]%Z.

(** Cell 3: the 2x2 diagonal system. *)
Definition cell3 : list stmt :=
  [ SAssign "matrix" (VMat matrix2d);
    SAssign "vector" (VVec vector2d);
    SSetSection "params" "input" input_lit ].

(** Cell 4: the first run. *)
Definition cell4 : list stmt := [ SRun "params" ].

(** Cell 5: [scale] set to 0.5, and the second run. *)
Definition cell5 : list stmt :=
  [ SAlias "params2" "params";
    SSetSection "params2" "reciprocal" [("scale", Lit (VFloat 5 10))];
    SRun "params2" ].

Definition matrix2n : list (list Z) := [[1; 3]; [3; 2]]%Z.
Definition vector2n : list Z := [1; 1]%Z.

(** Cell 7: the 2x2 non-diagonal system. *)
Definition cell7 : list stmt :=
  [ SAssign "matrix" (VMat matrix2n);
    SAssign "vector" (VVec vector2n);
    SAlias "params3" "params";
    SSetSection "params3" "input" input_lit;
    SSetSection "params3" "reciprocal" [("negative_evals", yes)];
    SSetSection "params3" "eigs" [("negative_evals", yes)] ].

(** Cell 8: the third run. *)
Definition cell8 : list stmt := [ SRun "params3" ].

Definition matrix8 : list (list Z) :=
  [[4; 0; 0; 0; 0; 0; 0; 1];
   [0; 3; 0; 0; 0; 0; 0; 0];
   [0; 0; 8; 0; 0; 0; 0; 0];
   [0; 0; 0; 5; 0; 0; 0; 0];
   [0; 0; 0; 0; 2; 1; 0; 0];
   [0; 0; 0; 0; 1; 1; 0; 0];
   [0; 0; 0; 0; 0; 0; 1; 0];
   [1; 0; 0; 0; 0; 0; 0; 5]]%Z.
Definition vector8 : list Z := [1; 0; 0; 0; 0; 0; 0; 1]%Z.

(** Cell 10: the 8x8 system. *)
Definition cell10 : list stmt :=
  [ SAssign "matrix" (VMat matrix8);
    SAssign "vector" (VVec vector8);
    SAlias "params4" "params";
    SSetSection "params4" "input" input_lit ].

(** Cell 11: the fourth run. *)
Definition cell11 : list stmt := [ SRun "params4" ].

(** Cell 14: the configuration of the 4x4 random system. *)
Definition cell14 : list stmt :=
  [ SAlias "params5" "params";
    SSetSection "params5" "algorithm"
      [("truncate_powerdim", no); ("truncate_hermitian", no)];
    SSetSection "params5" "reciprocal"
      [("name", str "Lookup"); ("negative_evals", yes)];
    SSetSection "params5" "eigs"
      [("expansion_mode", str "suzuki"); ("expansion_order", int 2);
       ("name", str "EigsQPE"); ("negative_evals", yes);
       ("num_ancillae", int 6); ("num_time_slices", int 70)];
    SSetSection "params5" "initial_state" [("name", str "CUSTOM")];
    SSetSection "params5" "iqft" [("name", str "STANDARD")];
    SSetSection "params5" "qft" [("name", str "STANDARD")] ].

(** The cells in execution order (cells 6, 9 and 12 only print the circuit
    size of the last result; cell 15 runs the 4x4 system through the class
    [HHL] and not through [run_algorithm]). *)
Definition notebook : list stmt :=
  (cell2 ++ cell3 ++ cell4 ++ cell5 ++ cell7 ++ cell8 ++ cell10 ++ cell11
     ++ cell14)%list.

End Notebook.

(** ** The configurations the runs are expected to see *)

Module Expected.
Import Py Notebook.

Definition cfg_of (l : list (string * list (string * value))) : config :=
  list_to_map (map (λ kd, (kd.1, list_to_map kd.2)) l).

Definition problem_sec := [("name", VStr "linear_system")].
Definition algorithm_sec := [("name", VStr "HHL")].
Definition eigs_sec :=
  [("expansion_mode", VStr "suzuki"); ("expansion_order", VInt 2);
   ("name", VStr "EigsQPE"); ("num_ancillae", VInt 3);
   ("num_time_slices", VInt 50)].
Definition backend_sec :=
  [("provider", VStr "qiskit.BasicAer");
   ("name", VStr "statevector_simulator")].
Definition input_sec (A : list (list Z)) (b : list Z) :=
  [("name", VStr "LinearSystemInput"); ("matrix", VMat A);
   ("vector", VVec b)].
Definition negative_sec := [("negative_evals", VBool true)].

(** Cell 2 with the input of cell 3: the default configuration. *)
Definition config1 : config :=
  cfg_of [("problem", problem_sec); ("algorithm", algorithm_sec);
          ("eigs", eigs_sec); ("reciprocal", [("name", VStr "Lookup")]);
          ("backend", backend_sec); ("input", input_sec matrix2d vector2d)].

Definition config2 : config :=
  cfg_of [("problem", problem_sec); ("algorithm", algorithm_sec);
          ("eigs", eigs_sec); ("reciprocal", [("scale", VFloat 5 10)]);
          ("backend", backend_sec); ("input", input_sec matrix2d vector2d)].

Definition config3 : config :=
  cfg_of [("problem", problem_sec); ("algorithm", algorithm_sec);
          ("eigs", negative_sec); ("reciprocal", negative_sec);
          ("backend", backend_sec); ("input", input_sec matrix2n vector2n)].

Definition config4 : config :=
  cfg_of [("problem", problem_sec); ("algorithm", algorithm_sec);
          ("eigs", negative_sec); ("reciprocal", negative_sec);
          ("backend", backend_sec); ("input", input_sec matrix8 vector8)].

(** What the 8x8 run would be given without the assignments of cell 7
    made through [params3]. *)
Definition config4_without3 : config :=
  cfg_of [("problem", problem_sec); ("algorithm", algorithm_sec);
          ("eigs", eigs_sec); ("reciprocal", [("scale", VFloat 5 10)]);
          ("backend", backend_sec); ("input", input_sec matrix8 vector8)].

(** The configuration left behind by cell 14. *)
Definition config5 : config :=
  cfg_of [("problem", problem_sec);
          ("algorithm", [("truncate_powerdim", VBool false);
                         ("truncate_hermitian", VBool false)]);
          ("eigs", [("expansion_mode", VStr "suzuki");
                    ("expansion_order", VInt 2); ("name", VStr "EigsQPE");
                    ("negative_evals", VBool true); ("num_ancillae", VInt 6);
                    ("num_time_slices", VInt 70)]);
          ("reciprocal", [("name", VStr "Lookup");
                          ("negative_evals", VBool true)]);
          ("backend", backend_sec); ("input", input_sec matrix8 vector8);
          ("initial_state", [("name", VStr "CUSTOM")]);
          ("iqft", [("name", VStr "STANDARD")]);
          ("qft", [("name", VStr "STANDARD")])].

Definition call1 := mkCall "params" config1 matrix2d vector2d.
Definition call2 := mkCall "params2" config2 matrix2d vector2d.
Definition call3 := mkCall "params3" config3 matrix2n vector2n.
Definition call4 := mkCall "params4" config4 matrix8 vector8.

End Expected.

(** ** Complex numbers and the printing code *)

Module Num.
Import Py.
Open Scope R_scope.

(** numpy's [complex128], read over the reals. *)
Record C := mkC { re : R; im : R }.

Definition C0 : C := mkC 0 0.
Definition RtoC (x : R) : C := mkC x 0.
Definition ZtoC (z : Z) : C := RtoC (IZR z).
Definition Cadd (a b : C) : C := mkC (re a + re b) (im a + im b).
Definition Csub (a b : C) : C := mkC (re a - re b) (im a - im b).
Definition Cmul (a b : C) : C :=
  mkC (re a * re b - im a * im b) (re a * im b + im a * re b).
Definition Cconj (a : C) : C := mkC (re a) (- im a).
Definition Cdivr (a : C) (r : R) : C := mkC (re a / r) (im a / r).
Definition Cnorm2 (a : C) : R := re a * re a + im a * im a.
(** [np.abs] *)
Definition Cabs (a : C) : R := sqrt (Cnorm2 a).

(** A decimal numeral [z * 10^-d], the form of every printed number. *)
Definition dec (z : Z) (d : nat) : R := IZR z / 10 ^ d.

(** Rounding to the nearest integer, ties to even. *)
Definition round_half_even (x : R) : Z :=
  let n := Int_part x in
  let r := x - IZR n in
  if Rlt_dec r (1 / 2) then n
  else if Rlt_dec (1 / 2) r then (n + 1)%Z
  else if Z.even n then n else (n + 1)%Z.

(** [np.round(x, d)], read over the reals: the numeral of [d] decimals
    nearest to [x], ties to even.  numpy computes
    [rint(x * 10**d) / 10**d] in double precision, which can differ from
    this numeral in the last place and overflows for huge [x]. *)
Definition np_round (d : nat) (x : R) : R :=
  IZR (round_half_even (x * 10 ^ d)) / 10 ^ d.

(** [np.round(z, d)] on a complex number rounds both parts. *)
Definition Cround (d : nat) (z : C) : C :=
  mkC (np_round d (re z)) (np_round d (im z)).

(** ["%f" % x]: the numeral of six decimals nearest to [x], as Python's
    correctly rounded conversion gives it. *)
Definition format_f (x : R) : R := np_round 6 x.

(** [np.linalg.norm] of a vector, with the square root over the reals. *)
Definition sum_norm2 (v : list C) : R :=
  fold_right (λ z acc, Cnorm2 z + acc) 0 v.
Definition norm (v : list C) : R := sqrt (sum_norm2 v).

(** [v / r] for an array [v] and a scalar [r]. *)
Definition vdiv (v : list C) (r : R) : list C := map (λ z, Cdivr z r) v.

(** [a.conj().dot(b)] *)
Definition conj_dot (a b : list C) : C :=
  fold_right Cadd C0 (zip_with (λ x y, Cmul (Cconj x) y) a b).

(** [state_fidelity] of [qiskit.quantum_info] on two state vectors, as
    the library defines it: [np.abs(state2.conj().dot(state1)) ** 2]. *)
Definition state_fidelity (state1 state2 : list C) : R :=
  Cabs (conj_dot state2 state1) ^ 2.

(** The function [fidelity] of cell 2; the value it prints.  The
    arithmetic is read over the reals, so the value is numpy's only up to
    the rounding of doubles, and only on arrays of one length with
    non-zero norms: a length mismatch, on which numpy raises ValueError,
    and a zero norm, on which it yields nan, are not modelled. *)
Definition fidelity (hhl ref : list C) : R :=
  let solution_hhl_normed := vdiv hhl (norm hhl) in
  let solution_ref_normed := vdiv ref (norm ref) in
  state_fidelity solution_hhl_normed solution_ref_normed.

(** The result dictionary of [run_algorithm], with the keys the cells
    read. *)
Record result := mkResult {
  solution : list C;
  probability_result : R
}.

(** The four lines a run cell prints. *)
Record output := mkOutput {
  out_solution : list C;
  out_classical : list C;
  out_probability : R;
  out_fidelity : R
}.

(** The printing block of cells 4, 5, 8 and 11. *)
Definition print_block (result : result) (result_ref : list C) : output :=
  mkOutput (map (Cround 5) (solution result))
           (map (Cround 5) result_ref)
           (format_f (probability_result result))
           (format_f (fidelity (solution result) result_ref)).

End Num.

(** ** Printed numerals *)

Module Recorded.
Import Num.
Open Scope R_scope.

(** An array entry printed with five decimals. *)
Definition c5 (a b : Z) : C := mkC (dec a 5) (dec b 5).
Definition r5 (a : Z) : C := c5 a 0.

End Recorded.

(** ** A sample result: the numbers cell 4 shows *)

Module Replay.
Import Py Notebook Expected Num Recorded.
Open Scope R_scope.

Definition result1 : result :=
  mkResult [r5 105859; r5 199245] (dec 24630 6).

End Replay.

(** ** The inputs of the runs *)

Module Properties.
Import Py Notebook Expected Num.
Open Scope R_scope.

(** A square integer matrix equal to its transpose. *)
Definition symmetric (A : list (list Z)) : bool :=
  forallb (λ i, forallb (λ j,
      bool_decide (A !! i ≫= (.!! j) = A !! j ≫= (.!! i)))
    (seq 0 (length A))) (seq 0 (length A))
  && forallb (λ row, bool_decide (length row = length A)) A.

(** [n = 2^k] for some [k >= 1] below [n]. *)
Definition power_of_two (n : nat) : bool :=
  existsb (λ k, bool_decide (n = 2 ^ k)%nat) (seq 1 n).

(** The input of a call is a symmetric matrix of dimension 2^k with a
    vector of that length. *)
Definition well_formed_input (c : call) : bool :=
  symmetric (call_matrix c)
  && power_of_two (length (call_matrix c))
  && bool_decide (length (call_vector c) = length (call_matrix c)).

End Properties.

(** ** The shape of the stores the cells build *)

Module Shape.
Import Py.

Definition is_ref (v : value) : bool :=
  match v with VRef _ => true | _ => false end.

(** The names a program binds to dictionaries. *)
Definition dict_names (p : list stmt) : list string :=
  omap (λ s, match s with
             | SNewDict x _ | SAlias x _ => Some x
             | _ => None
             end) p.

(** Dictionary literals whose entries are literals or variables that are
    not bound to dictionaries: no dictionary is put inside a section. *)
Definition plain_entry (D : list string) (e : entry) : bool :=
  match e with
  | Lit v => negb (is_ref v)
  | Var x => bool_decide (x ∉ D)
  end.

Definition plain_section (D : list string) (d : section_lit) : bool :=
  forallb (λ ke, plain_entry D ke.2) d.

Definition plain_stmt (D : list string) (s : stmt) : bool :=
  match s with
  | SNewDict x ss =>
      bool_decide (x ∈ D) && forallb (λ kd, plain_section D kd.2) ss
  | SAssign x v => negb (is_ref v)
  | SAlias x y => bool_decide (x ∈ D)
  | SSetSection x k d => plain_section D d
  | SRun x => true
  end.

Definition plain (D : list string) (p : list stmt) : bool :=
  forallb (plain_stmt D) p.

(** No object holds a reference to the object at [l]. *)
Definition unreferenced (σ : store) (l : loc) : Prop :=
  ∀ l0 o k, heap σ !! l0 = Some o → o !! k ≠ Some (VRef l).

(** A dictionary without references. *)
Definition flat (m : dict) : Prop := ∀ k l, m !! k ≠ Some (VRef l).

(** The stores the cells build: locations from [next] on are free; a
    variable that holds a reference has a name of [D] and its object
    exists; an object referred to from an object exists, is flat, and is
    bound to no variable. *)
Record shaped (D : list string) (σ : store) : Prop := mkShaped {
  shaped_fresh : ∀ l : loc, (next σ ≤ l)%nat → heap σ !! l = None;
  shaped_vars : ∀ x l, vars σ !! x = Some (VRef l) →
                  x ∈ D ∧ is_Some (heap σ !! l);
  shaped_objs : ∀ l0 o k l, heap σ !! l0 = Some o → o !! k = Some (VRef l) →
                  (∃ m, heap σ !! l = Some m ∧ flat m)
                  ∧ ∀ x, vars σ !! x ≠ Some (VRef l)
}.

(** The configuration read through the name [x]. *)
Definition config_of (σ : store) (x : string) : option config :=
  match vars σ !! x with
  | Some (VRef l) => snapshot σ l
  | _ => None
  end.

(** The store after a list of statements, from the store [σ]. *)
Definition after (p : list stmt) (σ : store) : option store :=
  fst <$> exec p (σ, []).

End Shape.

(** ** Sample inputs: the state of the notebook after cell 3 *)

Module Samples.
Import Py Notebook Num Recorded Shape.

(** The store after cells 2 and 3. *)
Definition store_after_cell3 : store :=
  match run (cell2 ++ cell3)%list with
  | Some (σ, _) => σ
  | None => empty_store
  end.

(** The literals of cells 5 and 7. *)
Definition scale_lit : section_lit := [("scale", Lit (VFloat 5 10))].
Definition negative_lit : section_lit := [("negative_evals", yes)].

(** The names the notebook binds to dictionaries. *)
Definition names : list string := dict_names notebook.

End Samples.

Import Py Notebook Expected Num Recorded Properties Shape Samples.

(** Equations between closed terms of the store model, by evaluation. *)
Ltac vm_refl :=
  match goal with |- ?a = ?b => vm_cast_no_check (@eq_refl _ b) end.

Lemma notebook_calls : calls notebook = [call1; call2; call3; call4].
Proof. vm_refl. Qed.

(** ** The store: what assignments through an alias do *)

Section Store.

(** [x = y] leaves both names bound to the same value: no copy is made. *)
Lemma alias_same_value (x y : string) (σ σ' : store) (tr tr' : list call) :
  exec_stmt (SAlias x y) (σ, tr) = Some (σ', tr') ->
  vars σ' !! x = vars σ' !! y /\ heap σ' = heap σ /\ tr' = tr.
Proof.
  cbn. destruct (vars σ !! y) as [v |] eqn:Hy; cbn; [| discriminate].
  intros H. injection H as <- <-. cbn.
  rewrite lookup_insert_eq.
  destruct (decide (x = y)) as [-> | Hne].
  - rewrite lookup_insert_eq. auto.
  - rewrite lookup_insert_ne by exact Hne. rewrite Hy. auto.
Qed.

(** A section assigned in the object at [l] is what a later reading of
    that object finds, under whichever name the object is reached. *)
Lemma set_section_snapshot (σ σ' : store) (l : loc) (k : string)
    (d : section_lit) :
  l ≠ next σ ->
  set_section σ l k d = Some σ' ->
  exists m, eval_section σ d = Some m
            /\ (snapshot σ' l ≫= (λ c : config, c !! k)) = Some m.
Proof.
  intros Hl. unfold set_section.
  destruct (eval_section σ d) as [m |]; cbn; [| discriminate].
  rewrite lookup_insert_ne by (intros E; apply Hl; symmetry; exact E).
  destruct (heap σ !! l) as [o |] eqn:Ho; cbn; [| discriminate].
  intros H. injection H as <-. exists m. split; [reflexivity |].
  unfold snapshot. cbn. rewrite lookup_insert_eq. cbn.
  rewrite lookup_omap, lookup_insert_eq. cbn.
  rewrite lookup_insert_ne by exact Hl.
  rewrite lookup_insert_eq. reflexivity.
Qed.

(** An assignment through [x] is seen through every name bound to the
    same object. *)
Lemma assignment_seen_through_alias (x y k : string) (d : section_lit)
    (l : loc) (σ σ' : store) (tr tr' : list call) :
  vars σ !! x = Some (VRef l) -> vars σ !! y = Some (VRef l) ->
  l ≠ next σ ->
  exec_stmt (SSetSection x k d) (σ, tr) = Some (σ', tr') ->
  vars σ' !! y = Some (VRef l)
  /\ exists m, eval_section σ d = Some m
               /\ (snapshot σ' l ≫= (λ c : config, c !! k)) = Some m.
Proof.
  intros Hx Hy Hl. cbn. rewrite Hx. cbn.
  destruct (set_section σ l k d) as [σ1 |] eqn:Hs; cbn; [| discriminate].
  intros H. injection H as <- <-.
  split.
  - unfold set_section in Hs.
    destruct (eval_section σ d); cbn in Hs; [| discriminate].
    destruct (_ !! l) in Hs; cbn in Hs; [| discriminate].
    injection Hs as <-. exact Hy.
  - apply (set_section_snapshot σ σ1 l k d Hl Hs).
Qed.

Lemma seen_by_params4 :
  config_seen_by "params4" notebook = Some config4
  /\ config_seen_by "params4" (without "params3" notebook)
     = Some config4_without3.
Proof. split; vm_refl. Qed.

Lemma config4_changed : config4 ≠ config4_without3.
Proof.
  intros H.
  apply (f_equal (λ c, setting c "eigs" "negative_evals")) in H.
  vm_compute in H. discriminate.
Qed.

(** Every run of the notebook is made on a symmetric matrix of dimension
    2^k with a vector of that length. *)
Lemma notebook_inputs_well_formed :
  Forall (λ c, well_formed_input c = true) (calls notebook).
Proof. rewrite notebook_calls. repeat constructor. Qed.

Lemma notebook_names :
  Forall (λ x, final_vars notebook !! x = Some (VRef 0%nat))
         ["params"; "params2"; "params3"; "params4"; "params5"].
Proof. repeat constructor. Qed.

End Store.

(** ** Rounding *)

Section Rounding.
Open Scope R_scope.

Lemma round_half_even_close (x : R) :
  Rabs (IZR (round_half_even x) - x) <= 1 / 2.
Proof.
  unfold round_half_even.
  destruct (base_Int_part x) as [Hlo Hhi].
  set (n := Int_part x) in *.
  destruct (Rlt_dec (x - IZR n) (1 / 2)) as [Hlt | Hge].
  - apply Rabs_le. lra.
  - assert (Hup : Rabs (IZR (n + 1) - x) <= 1 / 2).
    { rewrite plus_IZR. apply Rabs_le. lra. }
    destruct (Rlt_dec (1 / 2) (x - IZR n)) as [Hgt | Hle]; [exact Hup |].
    destruct (Z.even n); [apply Rabs_le; lra | exact Hup].
Qed.

Lemma round_half_even_IZR (z : Z) : round_half_even (IZR z) = z.
Proof.
  unfold round_half_even.
  assert (Hz : Int_part (IZR z) = z).
  { symmetry. apply Int_part_spec. lra. }
  rewrite Hz.
  destruct (Rlt_dec (IZR z - IZR z) (1 / 2)) as [_ | Hn]; [reflexivity |].
  exfalso. apply Hn. lra.
Qed.

Lemma pow10_pos (d : nat) : 0 < 10 ^ d.
Proof. apply pow_lt. lra. Qed.

Lemma np_round_dec (d : nat) (z : Z) : np_round d (dec z d) = dec z d.
Proof.
  unfold np_round, dec.
  pose proof (pow10_pos d) as Hp.
  replace (IZR z / 10 ^ d * 10 ^ d) with (IZR z) by (field; lra).
  rewrite round_half_even_IZR. reflexivity.
Qed.

End Rounding.

(** ** The fidelity function in closed form *)

Section Fidelity.
Open Scope R_scope.

Lemma C_eq (a b : C) : re a = re b -> im a = im b -> a = b.
Proof. destruct a, b. cbn. intros -> ->. reflexivity. Qed.

Lemma Cnorm2_nonneg (z : C) : 0 <= Cnorm2 z.
Proof. unfold Cnorm2. nra. Qed.

Lemma sum_norm2_nonneg (v : list C) : 0 <= sum_norm2 v.
Proof.
  induction v as [| z v IH]; [cbn; lra |].
  change (0 <= Cnorm2 z + sum_norm2 v).
  pose proof (Cnorm2_nonneg z). lra.
Qed.

Lemma norm_sqr (v : list C) : norm v * norm v = sum_norm2 v.
Proof. apply sqrt_sqrt, sum_norm2_nonneg. Qed.

Lemma Cnorm2_Cdivr (z : C) (r : R) : Cnorm2 (Cdivr z r) = Cnorm2 z / (r * r).
Proof.
  unfold Cnorm2, Cdivr, Rdiv. cbn [re im]. rewrite Rinv_mult. ring.
Qed.

Lemma Cdivr_add (a b : C) (r : R) :
  Cadd (Cdivr a r) (Cdivr b r) = Cdivr (Cadd a b) r.
Proof. apply C_eq; cbn; unfold Rdiv; ring. Qed.

Lemma conj_dot_vdiv (a b : list C) (u v : R) :
  conj_dot (vdiv a u) (vdiv b v) = Cdivr (conj_dot a b) (u * v).
Proof.
  unfold conj_dot, vdiv.
  revert b. induction a as [| x a IH]; intros [| y b]; cbn [map zip_with fold_right];
    try (apply C_eq; cbn; unfold Rdiv; ring).
  rewrite IH, <- Cdivr_add. f_equal.
  apply C_eq; cbn; unfold Rdiv; rewrite Rinv_mult; ring.
Qed.

(** [fidelity] is the squared overlap divided by the squared norms; the
    square roots of [np.linalg.norm] and [np.abs] cancel. *)
Lemma fidelity_closed (hhl ref : list C) :
  fidelity hhl ref
  = Cnorm2 (conj_dot ref hhl) / (sum_norm2 ref * sum_norm2 hhl).
Proof.
  unfold fidelity, state_fidelity, Cabs.
  rewrite conj_dot_vdiv.
  rewrite pow2_sqrt by apply Cnorm2_nonneg.
  rewrite Cnorm2_Cdivr. f_equal.
  rewrite <- (norm_sqr ref), <- (norm_sqr hhl). ring.
Qed.

End Fidelity.

Ltac cplx :=
  unfold conj_dot, sum_norm2 in *;
  cbn [map zip_with fold_right length] in *;
  unfold Cnorm2, Cadd, Csub, Cmul, Cconj, Cdivr, C0, ZtoC, RtoC in *;
  cbn [re im] in *.

Section Claims.
Open Scope R_scope.

(** C6, as stated, fails on the notebook: the configuration given to the
    run of [params4] depends on the assignments cell 7 makes through
    [params3]. *)
Lemma isolation_counterexample : ¬ isolated notebook.
Proof.
  intros H.
  specialize (H "params3" "params4").
  destruct seen_by_params4 as [Hseen Hwithout].
  rewrite Hseen, Hwithout in H.
  assert (Hne : config4_without3 = config4).
  { assert (E : Some config4_without3 = Some config4).
    { apply H; [| congruence].
      apply (bool_decide_unpack _). vm_compute. exact I. }
    congruence. }
  exact (config4_changed (eq_sym Hne)).
Qed.

(** C6, amended. The notebook keeps one configuration dictionary: the
    names params, params2, params3, params4 and params5 are bound to the
    same object, and each run is given the sections as the cells before
    it left them.  The run of params4 is given the sections eigs and
    reciprocal that cell 7 assigned through params3, and would be given
    other ones without those assignments; after cell 14 the dictionary
    read through params is the configuration of the 4x4 system. *)
Theorem notebook_shares_one_dictionary :
  Forall (λ x, final_vars notebook !! x = Some (VRef 0%nat))
         ["params"; "params2"; "params3"; "params4"; "params5"]
  /\ config_seen_by "params" notebook = Some config1
  /\ config_seen_by "params2" notebook = Some config2
  /\ config_seen_by "params3" notebook = Some config3
  /\ config_seen_by "params4" notebook = Some config4
  /\ config4 !! "eigs" = config3 !! "eigs"
  /\ config4 !! "reciprocal" = config3 !! "reciprocal"
  /\ setting config4 "eigs" "negative_evals" = Some (VBool true)
  /\ setting config4 "reciprocal" "negative_evals" = Some (VBool true)
  /\ config_seen_by "params4" (without "params3" notebook)
     = Some config4_without3
  /\ config4 ≠ config4_without3
  /\ (run notebook ≫= λ st, snapshot st.1 0%nat) = Some config5.
Proof.
  split; [exact notebook_names |].
  do 4 (split; [vm_refl |]).
  do 4 (split; [vm_refl |]).
  split; [exact (proj2 seen_by_params4) |].
  split; [exact config4_changed |].
  vm_refl.
Qed.

End Claims.

(** ** Laws of the function [fidelity] *)

Section FidelityLaws.
Open Scope R_scope.

Lemma conj_dot_cons (x y : C) (a b : list C) :
  conj_dot (x :: a) (y :: b) = Cadd (Cmul (Cconj x) y) (conj_dot a b).
Proof. reflexivity. Qed.

Lemma norm_nonzero (v : list C) : norm v <> 0 <-> 0 < sum_norm2 v.
Proof.
  pose proof (sum_norm2_nonneg v) as Hv. unfold norm. split.
  - intros Hn. destruct (Req_dec (sum_norm2 v) 0) as [E | E]; [| lra].
    exfalso. apply Hn. rewrite E. apply sqrt_0.
  - intros Hp E. apply sqrt_eq_0 in E; lra.
Qed.

Lemma conj_dot_swap (a b : list C) :
  conj_dot a b = Cconj (conj_dot b a).
Proof.
  revert b. induction a as [| x a IH]; intros [| y b];
    try (apply C_eq; cbn; lra).
  rewrite !conj_dot_cons, (IH b).
  apply C_eq; unfold Cadd, Cmul, Cconj; cbn [re im]; ring.
Qed.

Lemma Cnorm2_conj (z : C) : Cnorm2 (Cconj z) = Cnorm2 z.
Proof. unfold Cnorm2, Cconj. cbn [re im]. ring. Qed.

(** X2. [fidelity] does not depend on the order of its arguments (on arrays
    of one length with non-zero norms). *)
Theorem fidelity_symmetric (hhl ref : list C) :
  length hhl = length ref -> norm hhl <> 0 -> norm ref <> 0 ->
  fidelity hhl ref = fidelity ref hhl.
Proof.
  intros _ _ _. rewrite !fidelity_closed.
  rewrite (conj_dot_swap ref hhl), Cnorm2_conj. f_equal. ring.
Qed.

End FidelityLaws.

(** ** Laws of the section assignments *)

Section StoreLaws.

Lemma set_section_spec (σ : store) (l : loc) (k : string) (d : section_lit)
    (m o : dict) :
  eval_section σ d = Some m -> heap σ !! l = Some o -> l ≠ next σ ->
  set_section σ l k d
  = Some (mkStore (vars σ)
            (<[l := <[k := VRef (next σ)]> o]> (<[next σ := m]> (heap σ)))
            (S (next σ))).
Proof.
  intros Hm Ho Hl. unfold set_section. rewrite Hm. cbn.
  rewrite lookup_insert_ne by congruence. rewrite Ho. reflexivity.
Qed.

Lemma allocated_below (D : list string) (σ : store) (l : loc) (o : dict) :
  shaped D σ -> heap σ !! l = Some o -> (l < next σ)%nat.
Proof.
  intros Hs Ho. destruct (Nat.lt_ge_cases l (next σ)) as [H | H]; [exact H |].
  rewrite (shaped_fresh D σ Hs l H) in Ho. discriminate.
Qed.

(** Reading the object at [l] after [obj[k] = m]: the former sections with
    [k] replaced by [m]. *)
Lemma snapshot_after_set (D : list string) (σ : store) (l : loc)
    (k : string) (m o : dict) (c : config) :
  shaped D σ -> heap σ !! l = Some o -> unreferenced σ l ->
  snapshot σ l = Some c ->
  snapshot (mkStore (vars σ)
              (<[l := <[k := VRef (next σ)]> o]> (<[next σ := m]> (heap σ)))
              (S (next σ))) l
  = Some (<[k := m]> c).
Proof.
  intros Hs Ho Hun Hc.
  pose proof (allocated_below D σ l o Hs Ho) as Hl.
  unfold snapshot in *. cbn. rewrite Ho in Hc. cbn in Hc.
  injection Hc as <-.
  rewrite lookup_insert_eq. cbn. f_equal.
  apply map_eq. intros j.
  rewrite lookup_omap.
  destruct (decide (k = j)) as [<- | Hkj].
  - rewrite !lookup_insert_eq. cbn.
    rewrite lookup_insert_ne by lia. apply lookup_insert_eq.
  - rewrite !lookup_insert_ne by exact Hkj.
    rewrite lookup_omap.
    destruct (o !! j) as [v |] eqn:Hj; [| reflexivity].
    destruct v as [| | | | | | l']; try reflexivity. cbn.
    assert (l' ≠ l) by (intros ->; exact (Hun l o j Ho Hj)).
    destruct (shaped_objs D σ Hs l o j l' Ho Hj) as [(m' & Hm' & _) _].
    pose proof (allocated_below D σ l' m' Hs Hm').
    rewrite !lookup_insert_ne by lia. reflexivity.
Qed.

(** Reading another object: no change. *)
Lemma snapshot_frame (D : list string) (σ : store) (l l1 : loc)
    (k : string) (m o o1 : dict) :
  shaped D σ -> unreferenced σ l ->
  heap σ !! l1 = Some o1 -> l1 ≠ l ->
  snapshot (mkStore (vars σ)
              (<[l := <[k := VRef (next σ)]> o]> (<[next σ := m]> (heap σ)))
              (S (next σ))) l1
  = snapshot σ l1.
Proof.
  intros Hs Hun Ho1 Hne.
  pose proof (allocated_below D σ l1 o1 Hs Ho1) as Hl1.
  unfold snapshot. cbn.
  rewrite !lookup_insert_ne by lia. rewrite Ho1. cbn. f_equal.
  apply map_eq. intros j. rewrite !lookup_omap.
  destruct (o1 !! j) as [v |] eqn:Hj; [| reflexivity].
  destruct v as [| | | | | | l']; try reflexivity. cbn.
  assert (l' ≠ l) by (intros ->; exact (Hun l1 o1 j Ho1 Hj)).
  destruct (shaped_objs D σ Hs l1 o1 j l' Ho1 Hj) as [(m' & Hm' & _) _].
  pose proof (allocated_below D σ l' m' Hs Hm').
  rewrite !lookup_insert_ne by lia. reflexivity.
Qed.

(** An object bound to a variable is referred to by no object. *)
Lemma bound_unreferenced (D : list string) (σ : store) (x : string)
    (l : loc) :
  shaped D σ -> vars σ !! x = Some (VRef l) -> unreferenced σ l.
Proof.
  intros Hs Hx l0 o k Ho Hk.
  destruct (shaped_objs D σ Hs l0 o k l Ho Hk) as [_ Hnv].
  exact (Hnv x Hx).
Qed.

Lemma eval_section_flat (D : list string) (σ : store) (d : section_lit)
    (m : dict) :
  shaped D σ -> plain_section D d = true -> eval_section σ d = Some m ->
  flat m.
Proof.
  intros Hs. revert m. induction d as [| [k e] d IH]; intros m Hp Hm.
  - injection Hm as <-. intros j l. rewrite lookup_empty. discriminate.
  - cbn in Hp. apply andb_true_iff in Hp as [He Hd]. cbn in Hm.
    destruct (eval_entry σ e) as [v |] eqn:Hv; [| discriminate]. cbn in Hm.
    destruct (eval_section σ d) as [m' |]; [| discriminate]. cbn in Hm.
    specialize (IH m' Hd eq_refl).
    assert (Hnr : is_ref v = false).
    { destruct e as [v' | x]; cbn in Hv, He.
      - injection Hv as <-. destruct (is_ref v'); [discriminate | reflexivity].
      - apply bool_decide_eq_true in He.
        destruct v; try reflexivity.
        destruct (shaped_vars D σ Hs x l Hv) as [Hin _]. contradiction. }
    injection Hm as <-.
    destruct (m' !! k) eqn:Hk; [exact IH |].
    intros j l. destruct (decide (k = j)) as [<- | Hkj].
    + rewrite lookup_insert_eq. intros E. injection E as ->. discriminate.
    + rewrite lookup_insert_ne by exact Hkj. apply IH.
Qed.

Lemma set_section_shaped (D : list string) (σ : store) (l : loc)
    (k : string) (m o : dict) :
  shaped D σ -> heap σ !! l = Some o -> unreferenced σ l -> flat m ->
  let σ' := mkStore (vars σ)
              (<[l := <[k := VRef (next σ)]> o]> (<[next σ := m]> (heap σ)))
              (S (next σ)) in
  shaped D σ' ∧ unreferenced σ' l.
Proof.
  intros Hs Ho Hun Hm σ'.
  pose proof (allocated_below D σ l o Hs Ho) as Hl.
  assert (Hold : ∀ l0 o0, l0 ≠ l -> l0 ≠ next σ ->
                   heap σ' !! l0 = Some o0 -> heap σ !! l0 = Some o0).
  { intros l0 o0 H1 H2. unfold σ'. cbn.
    rewrite !lookup_insert_ne by congruence. auto. }
  assert (Hkeep : ∀ l0 o0, heap σ !! l0 = Some o0 -> l0 ≠ l ->
                    heap σ' !! l0 = Some o0).
  { intros l0 o0 H0 H1. pose proof (allocated_below D σ l0 o0 Hs H0).
    unfold σ'. cbn. rewrite !lookup_insert_ne by lia. exact H0. }
  assert (Hnew : heap σ' !! next σ = Some m).
  { unfold σ'. cbn. rewrite lookup_insert_ne by lia. apply lookup_insert_eq. }
  assert (Htop : heap σ' !! l = Some (<[k := VRef (next σ)]> o)).
  { unfold σ'. cbn. apply lookup_insert_eq. }
  assert (Hnb : ∀ x, vars σ !! x ≠ Some (VRef (next σ))).
  { intros x Hx. destruct (shaped_vars D σ Hs x _ Hx) as [_ [o' Ho']].
    pose proof (allocated_below D σ _ o' Hs Ho'). lia. }
  split; [constructor |].
  - intros l0 Hl0. unfold σ' in *. cbn in *.
    rewrite !lookup_insert_ne by lia. apply (shaped_fresh D σ Hs). lia.
  - intros x lx Hx. cbn in Hx.
    destruct (shaped_vars D σ Hs x lx Hx) as [Hin [ox Hox]].
    split; [exact Hin |].
    destruct (decide (lx = l)) as [-> | Hne]; [rewrite Htop; eauto |].
    rewrite (Hkeep lx ox Hox Hne). eauto.
  - intros l0 o0 k0 l' H0 Hk0.
    destruct (decide (l0 = l)) as [-> | Hne].
    + rewrite Htop in H0. injection H0 as <-.
      destruct (decide (k = k0)) as [<- | Hkk].
      * rewrite lookup_insert_eq in Hk0. injection Hk0 as <-.
        split; [eauto | exact Hnb].
      * rewrite lookup_insert_ne in Hk0 by exact Hkk.
        destruct (shaped_objs D σ Hs l o k0 l' Ho Hk0)
          as [(m' & Hm' & Hf) Hnv].
        assert (l' ≠ l) by (intros ->; exact (Hun l o k0 Ho Hk0)).
        split; [| exact Hnv]. exists m'. split; [| exact Hf].
        apply Hkeep; assumption.
    + destruct (decide (l0 = next σ)) as [-> | Hnn].
      * rewrite Hnew in H0. injection H0 as <-.
        exfalso. exact (Hm k0 l' Hk0).
      * pose proof (Hold l0 o0 Hne Hnn H0) as H0'.
        destruct (shaped_objs D σ Hs l0 o0 k0 l' H0' Hk0)
          as [(m' & Hm' & Hf) Hnv].
        assert (l' ≠ l) by (intros ->; exact (Hun l0 o0 k0 H0' Hk0)).
        split; [| exact Hnv]. exists m'. split; [| exact Hf].
        apply Hkeep; assumption.
  - intros l0 o0 k0 H0 Hk0.
    destruct (decide (l0 = l)) as [-> | Hne].
    + rewrite Htop in H0. injection H0 as <-.
      destruct (decide (k = k0)) as [<- | Hkk].
      * rewrite lookup_insert_eq in Hk0. injection Hk0 as E. lia.
      * rewrite lookup_insert_ne in Hk0 by exact Hkk.
        exact (Hun l o k0 Ho Hk0).
    + destruct (decide (l0 = next σ)) as [-> | Hnn].
      * rewrite Hnew in H0. injection H0 as <-. exact (Hm k0 l Hk0).
      * exact (Hun l0 o0 k0 (Hold l0 o0 Hne Hnn H0) Hk0).
Qed.

Lemma set_section_step (D : list string) (σ σ' : store) (l : loc)
    (k : string) (d : section_lit) :
  shaped D σ -> is_Some (heap σ !! l) -> unreferenced σ l ->
  plain_section D d = true ->
  set_section σ l k d = Some σ' ->
  shaped D σ' ∧ is_Some (heap σ' !! l) ∧ unreferenced σ' l
  ∧ vars σ' = vars σ.
Proof.
  intros Hs [o Ho] Hun Hp Hset.
  pose proof (allocated_below D σ l o Hs Ho) as Hl.
  destruct (eval_section σ d) as [m |] eqn:Hm.
  2:{ unfold set_section in Hset. rewrite Hm in Hset. discriminate. }
  rewrite (set_section_spec σ l k d m o Hm Ho) in Hset by lia.
  injection Hset as <-.
  pose proof (eval_section_flat D σ d m Hs Hp Hm) as Hf.
  destruct (set_section_shaped D σ l k m o Hs Ho Hun Hf) as [H1 H2].
  split; [exact H1 |]. split; [| split; [exact H2 | reflexivity]].
  cbn. rewrite lookup_insert_eq. eauto.
Qed.

Lemma set_sections_step (D : list string) (ss : list (string * section_lit)) :
  ∀ (σ σ' : store) (l : loc),
  shaped D σ -> is_Some (heap σ !! l) -> unreferenced σ l ->
  forallb (λ kd, plain_section D kd.2) ss = true ->
  set_sections σ l ss = Some σ' ->
  shaped D σ' ∧ is_Some (heap σ' !! l) ∧ unreferenced σ' l
  ∧ vars σ' = vars σ.
Proof.
  induction ss as [| [k d] ss IH]; intros σ σ' l Hs Ho Hun Hp Hset.
  - injection Hset as <-. auto.
  - cbn in Hp. apply andb_true_iff in Hp as [Hd Hss]. cbn in Hset.
    destruct (set_section σ l k d) as [σ1 |] eqn:H1; [| discriminate].
    cbn in Hset.
    destruct (set_section_step D σ σ1 l k d Hs Ho Hun Hd H1)
      as (Hs1 & Ho1 & Hun1 & Hv1).
    destruct (IH σ1 σ' l Hs1 Ho1 Hun1 Hss Hset) as (Hs' & Ho' & Hun' & Hv').
    split; [exact Hs' |]. split; [exact Ho' |]. split; [exact Hun' |].
    congruence.
Qed.

Lemma shaped_empty (D : list string) : shaped D empty_store.
Proof.
  constructor; cbn.
  - intros l _. apply lookup_empty.
  - intros x l H. rewrite lookup_empty in H. discriminate.
  - intros l0 o k l H. rewrite lookup_empty in H. discriminate.
Qed.

Lemma shaped_bind (D : list string) (σ : store) (x : string) (v : value) :
  shaped D σ ->
  (∀ l, v = VRef l -> x ∈ D ∧ is_Some (heap σ !! l) ∧ unreferenced σ l) ->
  shaped D (mkStore (<[x := v]> (vars σ)) (heap σ) (next σ)).
Proof.
  intros Hs Hv. constructor; cbn.
  - apply (shaped_fresh D σ Hs).
  - intros y l Hy. destruct (decide (x = y)) as [<- | Hxy].
    + rewrite lookup_insert_eq in Hy. injection Hy as ->.
      destruct (Hv l eq_refl) as (H1 & H2 & _). auto.
    + rewrite lookup_insert_ne in Hy by exact Hxy.
      apply (shaped_vars D σ Hs y l Hy).
  - intros l0 o k l Ho Hk.
    destruct (shaped_objs D σ Hs l0 o k l Ho Hk) as [Hm Hnv].
    split; [exact Hm |]. intros y. destruct (decide (x = y)) as [<- | Hxy].
    + rewrite lookup_insert_eq. intros E. injection E as ->.
      destruct (Hv l eq_refl) as (_ & _ & Hun). exact (Hun l0 o k Ho Hk).
    + rewrite lookup_insert_ne by exact Hxy. apply Hnv.
Qed.

(** Every statement of a plain program keeps the store in shape. *)
Lemma exec_stmt_shaped (D : list string) (s : stmt) (σ σ' : store)
    (tr tr' : list call) :
  shaped D σ -> plain_stmt D s = true ->
  exec_stmt s (σ, tr) = Some (σ', tr') -> shaped D σ'.
Proof.
  intros Hs Hp Hex. destruct s as [x ss | x v | x y | x k d | x]; cbn in *.
  - apply andb_true_iff in Hp as [Hx Hss]. apply bool_decide_eq_true in Hx.
    destruct (set_sections _ (next σ) ss) as [σ2 |] eqn:H2; [| discriminate].
    cbn in Hex. injection Hex as <- <-.
    set (σ1 := mkStore (vars σ) (<[next σ := ∅]> (heap σ)) (S (next σ))) in *.
    assert (Hs1 : shaped D σ1).
    { constructor; cbn.
      - intros l Hl. rewrite lookup_insert_ne by lia.
        apply (shaped_fresh D σ Hs). lia.
      - intros y l Hy. destruct (shaped_vars D σ Hs y l Hy) as [Hin [o Ho]].
        split; [exact Hin |].
        pose proof (allocated_below D σ l o Hs Ho).
        rewrite lookup_insert_ne by lia. eauto.
      - intros l0 o k l Ho Hk.
        destruct (decide (l0 = next σ)) as [-> | Hne].
        + rewrite lookup_insert_eq in Ho. injection Ho as <-.
          rewrite lookup_empty in Hk. discriminate.
        + rewrite lookup_insert_ne in Ho by congruence.
          destruct (shaped_objs D σ Hs l0 o k l Ho Hk)
            as [(m & Hm & Hf) Hnv].
          split; [| exact Hnv]. exists m. split; [| exact Hf].
          pose proof (allocated_below D σ l m Hs Hm).
          rewrite lookup_insert_ne by lia. exact Hm. }
    assert (Hun1 : unreferenced σ1 (next σ)).
    { intros l0 o k Ho Hk. cbn in Ho.
      destruct (decide (l0 = next σ)) as [-> | Hne].
      - rewrite lookup_insert_eq in Ho. injection Ho as <-.
        rewrite lookup_empty in Hk. discriminate.
      - rewrite lookup_insert_ne in Ho by congruence.
        destruct (shaped_objs D σ Hs l0 o k _ Ho Hk) as [(m & Hm & _) _].
        pose proof (allocated_below D σ _ m Hs Hm). lia. }
    assert (Ho1 : is_Some (heap σ1 !! next σ)).
    { cbn. rewrite lookup_insert_eq. eauto. }
    destruct (set_sections_step D ss σ1 σ2 (next σ) Hs1 Ho1 Hun1 Hss H2)
      as (Hs2 & Ho2 & Hun2 & _).
    apply shaped_bind; [exact Hs2 |].
    intros l E. injection E as <-. auto.
  - injection Hex as <- <-. apply shaped_bind; [exact Hs |].
    intros l ->. discriminate.
  - apply bool_decide_eq_true in Hp.
    destruct (vars σ !! y) as [v |] eqn:Hy; [| discriminate].
    cbn in Hex. injection Hex as <- <-.
    apply shaped_bind; [exact Hs |]. intros l ->.
    destruct (shaped_vars D σ Hs y l Hy) as [_ Ho].
    split; [exact Hp |]. split; [exact Ho |].
    exact (bound_unreferenced D σ y l Hs Hy).
  - destruct (vars σ !! x) as [v |] eqn:Hx; [| discriminate]. cbn in Hex.
    destruct v as [| | | | | | l]; try discriminate.
    destruct (set_section σ l k d) as [σ1 |] eqn:H1; [| discriminate].
    cbn in Hex. injection Hex as <- <-.
    destruct (shaped_vars D σ Hs x l Hx) as [_ Ho].
    exact (proj1 (set_section_step D σ σ1 l k d Hs Ho
                    (bound_unreferenced D σ x l Hs Hx) Hp H1)).
  - destruct (vars σ !! x) as [v |]; [| discriminate]. cbn in Hex.
    destruct v as [| | | | | | l]; try discriminate.
    destruct (vars σ !! "matrix") as [[| | | | | A |] |]; try discriminate.
    destruct (vars σ !! "vector") as [[| | | | b | |] |]; try discriminate.
    destruct (snapshot σ l); [| discriminate].
    cbn in Hex. injection Hex as <- _. exact Hs.
Qed.

Lemma exec_shaped (D : list string) (p : list stmt) :
  ∀ (σ σ' : store) (tr tr' : list call),
  shaped D σ -> plain D p = true ->
  exec p (σ, tr) = Some (σ', tr') -> shaped D σ'.
Proof.
  induction p as [| s p IH]; intros σ σ' tr tr' Hs Hp Hex.
  - injection Hex as <- _. exact Hs.
  - cbn in Hp. apply andb_true_iff in Hp as [Hs1 Hp1].
    change (exec_stmt s (σ, tr) ≫= exec p = Some (σ', tr')) in Hex.
    destruct (exec_stmt s (σ, tr)) as [[σ1 tr1] |] eqn:H1; [| discriminate].
    exact (IH σ1 σ' tr1 tr' (exec_stmt_shaped D s σ σ1 tr tr1 Hs Hs1 H1)
              Hp1 Hex).
Qed.

Lemma eval_section_vars (σ σ' : store) (d : section_lit) :
  vars σ' = vars σ -> eval_section σ' d = eval_section σ d.
Proof.
  intros Hv. induction d as [| [k e] d IH]; [reflexivity |].
  cbn. rewrite IH. destruct e as [v | x]; cbn; [reflexivity |].
  rewrite Hv. reflexivity.
Qed.

Lemma config_of_bound (D : list string) (σ : store) (x : string) (l : loc) :
  shaped D σ -> vars σ !! x = Some (VRef l) ->
  config_of σ x = snapshot σ l ∧ is_Some (snapshot σ l).
Proof.
  intros Hs Hx. unfold config_of. rewrite Hx. split; [reflexivity |].
  destruct (shaped_vars D σ Hs x l Hx) as [_ [o Ho]].
  unfold snapshot. rewrite Ho. cbn. eauto.
Qed.

(** One assignment [x[k] = {...}] in a store in shape. *)
Lemma assign_step (D : list string) (σ : store) (tr : list call)
    (x k : string) (d : section_lit) (l : loc) (m : dict) :
  shaped D σ -> vars σ !! x = Some (VRef l) ->
  eval_section σ d = Some m ->
  exists (σ' : store) (c : config),
    exec_stmt (SSetSection x k d) (σ, tr) = Some (σ', tr)
    ∧ vars σ' = vars σ
    ∧ snapshot σ l = Some c
    ∧ snapshot σ' l = Some (<[k := m]> c)
    ∧ (∀ l1, is_Some (heap σ !! l1) -> l1 ≠ l ->
         snapshot σ' l1 = snapshot σ l1)
    ∧ (plain_section D d = true -> shaped D σ').
Proof.
  intros Hs Hx Hm.
  destruct (shaped_vars D σ Hs x l Hx) as [_ [o Ho]].
  pose proof (allocated_below D σ l o Hs Ho) as Hl.
  pose proof (bound_unreferenced D σ x l Hs Hx) as Hun.
  destruct (config_of_bound D σ x l Hs Hx) as [Hcx [c Hc]].
  eexists _, c. split.
  { cbn. rewrite Hx. cbn.
    rewrite (set_section_spec σ l k d m o Hm Ho) by lia. reflexivity. }
  split; [reflexivity |].
  split; [exact Hc |].
  split; [exact (snapshot_after_set D σ l k m o c Hs Ho Hun Hc) |].
  split.
  - intros l1 [o1 Ho1] Hne.
    exact (snapshot_frame D σ l l1 k m o o1 Hs Hun Ho1 Hne).
  - intros Hp.
    exact (proj1 (set_section_shaped D σ l k m o Hs Ho Hun
                    (eval_section_flat D σ d m Hs Hp Hm))).
Qed.

Lemma exec_two (s1 s2 : stmt) (st : store * list call) :
  exec [s1; s2] st = exec_stmt s1 st ≫= exec_stmt s2.
Proof.
  change (exec [s1; s2] st)
    with (exec_stmt s1 st ≫= λ st1, exec_stmt s2 st1 ≫= Some).
  destruct (exec_stmt s1 st) as [st1 |]; [| reflexivity]. cbn.
  destruct (exec_stmt s2 st1); reflexivity.
Qed.

Lemma exec_one (s1 : stmt) (st : store * list call) :
  exec [s1] st = exec_stmt s1 st.
Proof.
  change (exec [s1] st) with (exec_stmt s1 st ≫= Some).
  destruct (exec_stmt s1 st); reflexivity.
Qed.

(** X10. The assignment [x[k] = {...}] in a store in shape, when the literal
    evaluates: it succeeds and makes no call; the variables stay as they
    are; every name bound to the object of [x] reads the former
    configuration with the whole section [k] replaced by the literal;
    every name bound to another object reads what it read before. *)
Theorem assignment_replaces_section (D : list string) (σ : store)
    (tr : list call) (x k : string) (d : section_lit) (l : loc) (m : dict) :
  shaped D σ -> vars σ !! x = Some (VRef l) ->
  eval_section σ d = Some m ->
  exists (σ' : store) (c : config),
    exec_stmt (SSetSection x k d) (σ, tr) = Some (σ', tr)
    ∧ vars σ' = vars σ
    ∧ config_of σ x = Some c
    ∧ (∀ y, vars σ !! y = Some (VRef l) ->
         config_of σ' y = Some (<[k := m]> c))
    ∧ (∀ y l1, vars σ !! y = Some (VRef l1) -> l1 ≠ l ->
         config_of σ' y = config_of σ y).
Proof.
  intros Hs Hx Hm.
  destruct (assign_step D σ tr x k d l m Hs Hx Hm)
    as (σ' & c & Hex & Hv & Hc & Hc' & Hfr & _).
  exists σ', c. split; [exact Hex |]. split; [exact Hv |].
  split; [unfold config_of; rewrite Hx; exact Hc |].
  split.
  - intros y Hy. unfold config_of. rewrite Hv, Hy. exact Hc'.
  - intros y l1 Hy Hne. unfold config_of. rewrite Hv, Hy.
    apply Hfr; [| exact Hne].
    exact (proj2 (shaped_vars D σ Hs y l1 Hy)).
Qed.

(** X11. Two assignments of one section in a row: the second one wins, and
    nothing of the first literal is left; assigning the same literal
    twice is the same as assigning it once. *)
Theorem last_assignment_wins (D : list string) (σ : store) (tr : list call)
    (x k : string) (d1 d2 : section_lit) (l : loc) (m1 m2 : dict) :
  shaped D σ -> plain_section D d1 = true ->
  vars σ !! x = Some (VRef l) ->
  eval_section σ d1 = Some m1 -> eval_section σ d2 = Some m2 ->
  exists (σ12 σ2 : store) (c : config),
    exec [SSetSection x k d1; SSetSection x k d2] (σ, tr) = Some (σ12, tr)
    ∧ exec [SSetSection x k d2] (σ, tr) = Some (σ2, tr)
    ∧ config_of σ x = Some c
    ∧ config_of σ12 x = Some (<[k := m2]> c)
    ∧ config_of σ2 x = Some (<[k := m2]> c).
Proof.
  intros Hs Hp Hx Hm1 Hm2.
  destruct (assign_step D σ tr x k d1 l m1 Hs Hx Hm1)
    as (σ1 & c & Hex1 & Hv1 & Hc & Hc1 & _ & Hs1).
  specialize (Hs1 Hp).
  assert (Hx1 : vars σ1 !! x = Some (VRef l)) by (rewrite Hv1; exact Hx).
  assert (Hm2' : eval_section σ1 d2 = Some m2)
    by (rewrite (eval_section_vars σ σ1 d2 Hv1); exact Hm2).
  destruct (assign_step D σ1 tr x k d2 l m2 Hs1 Hx1 Hm2')
    as (σ12 & c1 & Hex12 & Hv12 & Hc1' & Hc12 & _ & _).
  destruct (assign_step D σ tr x k d2 l m2 Hs Hx Hm2)
    as (σ2 & c' & Hex2 & Hv2 & Hc' & Hc2 & _ & _).
  exists σ12, σ2, c.
  split; [rewrite exec_two, Hex1; exact Hex12 |].
  split; [rewrite exec_one; exact Hex2 |].
  split; [unfold config_of; rewrite Hx; exact Hc |].
  split.
  - unfold config_of. rewrite Hv12, Hx1, Hc12.
    rewrite Hc1 in Hc1'. injection Hc1' as <-.
    rewrite insert_insert_eq. reflexivity.
  - unfold config_of. rewrite Hv2, Hx, Hc2.
    rewrite Hc in Hc'. injection Hc' as <-. reflexivity.
Qed.

(** X12. Assignments of two different sections can be made in either order:
    the configuration read afterwards is the same. *)
Theorem assignments_commute (D : list string) (σ : store) (tr : list call)
    (x k1 k2 : string) (d1 d2 : section_lit) (l : loc) (m1 m2 : dict) :
  shaped D σ -> plain_section D d1 = true -> plain_section D d2 = true ->
  vars σ !! x = Some (VRef l) -> k1 ≠ k2 ->
  eval_section σ d1 = Some m1 -> eval_section σ d2 = Some m2 ->
  exists (σ12 σ21 : store) (c : config),
    exec [SSetSection x k1 d1; SSetSection x k2 d2] (σ, tr) = Some (σ12, tr)
    ∧ exec [SSetSection x k2 d2; SSetSection x k1 d1] (σ, tr)
      = Some (σ21, tr)
    ∧ config_of σ x = Some c
    ∧ config_of σ12 x = Some (<[k2 := m2]> (<[k1 := m1]> c))
    ∧ config_of σ21 x = config_of σ12 x.
Proof.
  intros Hs Hp1 Hp2 Hx Hk Hm1 Hm2.
  destruct (assign_step D σ tr x k1 d1 l m1 Hs Hx Hm1)
    as (σ1 & c & Hex1 & Hv1 & Hc & Hc1 & _ & Hs1).
  specialize (Hs1 Hp1).
  assert (Hx1 : vars σ1 !! x = Some (VRef l)) by (rewrite Hv1; exact Hx).
  assert (Hm2' : eval_section σ1 d2 = Some m2)
    by (rewrite (eval_section_vars σ σ1 d2 Hv1); exact Hm2).
  destruct (assign_step D σ1 tr x k2 d2 l m2 Hs1 Hx1 Hm2')
    as (σ12 & c1 & Hex12 & Hv12 & Hc1' & Hc12 & _ & _).
  destruct (assign_step D σ tr x k2 d2 l m2 Hs Hx Hm2)
    as (σ2 & c' & Hex2 & Hv2 & Hc' & Hc2 & _ & Hs2).
  specialize (Hs2 Hp2).
  assert (Hx2 : vars σ2 !! x = Some (VRef l)) by (rewrite Hv2; exact Hx).
  assert (Hm1' : eval_section σ2 d1 = Some m1)
    by (rewrite (eval_section_vars σ σ2 d1 Hv2); exact Hm1).
  destruct (assign_step D σ2 tr x k1 d1 l m1 Hs2 Hx2 Hm1')
    as (σ21 & c2 & Hex21 & Hv21 & Hc2' & Hc21 & _ & _).
  rewrite Hc1 in Hc1'. injection Hc1' as <-.
  rewrite Hc in Hc'. injection Hc' as <-.
  rewrite Hc2 in Hc2'. injection Hc2' as <-.
  exists σ12, σ21, c.
  split; [rewrite exec_two, Hex1; exact Hex12 |].
  split; [rewrite exec_two, Hex2; exact Hex21 |].
  split; [unfold config_of; rewrite Hx; exact Hc |].
  assert (H12 : config_of σ12 x = Some (<[k2 := m2]> (<[k1 := m1]> c))).
  { unfold config_of. rewrite Hv12, Hx1. exact Hc12. }
  split; [exact H12 |].
  rewrite H12. unfold config_of. rewrite Hv21, Hx2, Hc21.
  f_equal. apply insert_insert_ne. exact Hk.
Qed.


Lemma eval_section_bind (D : list string) (σ : store) (y : string)
    (v : value) (d : section_lit) :
  plain_section D d = true -> y ∈ D ->
  eval_section (mkStore (<[y := v]> (vars σ)) (heap σ) (next σ)) d
  = eval_section σ d.
Proof.
  intros Hp Hy. induction d as [| [k e] d IH]; [reflexivity |].
  cbn in Hp. apply andb_true_iff in Hp as [He Hd].
  cbn. rewrite (IH Hd). destruct e as [w | z]; cbn; [reflexivity |].
  cbn in He. apply bool_decide_eq_true in He.
  rewrite lookup_insert_ne; [reflexivity |]. intros ->. contradiction.
Qed.

(** X13. The pattern of cells 5, 7 and 10, in any store in shape:
    after [y = x; y[k] = {...}] the configuration read through [x] itself
    has the section [k] replaced, as has the one read through [y]. *)
Theorem alias_then_assign (D : list string) (σ : store) (tr : list call)
    (x y k : string) (d : section_lit) (l : loc) (m : dict) :
  shaped D σ -> y ∈ D -> plain_section D d = true ->
  vars σ !! x = Some (VRef l) -> eval_section σ d = Some m ->
  exists (σ' : store) (c : config),
    exec [SAlias y x; SSetSection y k d] (σ, tr) = Some (σ', tr)
    ∧ config_of σ x = Some c
    ∧ config_of σ' x = Some (<[k := m]> c)
    ∧ config_of σ' y = Some (<[k := m]> c).
Proof.
  intros Hs Hy Hp Hx Hm.
  set (σa := mkStore (<[y := VRef l]> (vars σ)) (heap σ) (next σ)).
  assert (Hsa : shaped D σa).
  { apply shaped_bind; [exact Hs |]. intros l' E. injection E as <-.
    split; [exact Hy |].
    split; [exact (proj2 (shaped_vars D σ Hs x l Hx)) |].
    exact (bound_unreferenced D σ x l Hs Hx). }
  assert (Hya : vars σa !! y = Some (VRef l)) by apply lookup_insert_eq.
  assert (Hxa : vars σa !! x = Some (VRef l)).
  { cbn. destruct (decide (y = x)) as [-> | Hne];
      [apply lookup_insert_eq | rewrite lookup_insert_ne by exact Hne].
    exact Hx. }
  assert (Hma : eval_section σa d = Some m).
  { unfold σa. rewrite (eval_section_bind D σ y _ d Hp Hy). exact Hm. }
  destruct (assign_step D σa tr y k d l m Hsa Hya Hma)
    as (σ' & c & Hex & Hv & Hc & Hc' & _ & _).
  exists σ', c.
  split.
  { rewrite exec_two. cbn [exec_stmt]. rewrite Hx. exact Hex. }
  split; [unfold config_of; rewrite Hx; exact Hc |].
  split; unfold config_of; rewrite Hv; [rewrite Hxa | rewrite Hya];
    exact Hc'.
Qed.

Lemma eval_section_is_Some (σ : store) (d : section_lit) :
  is_Some (eval_section σ d)
  <-> ∀ y, Var y ∈ d.*2 -> is_Some (vars σ !! y).
Proof.
  induction d as [| [k e] d IH].
  - split; [| cbn; eauto]. intros _ y Hy. cbn in Hy.
    apply elem_of_nil in Hy. contradiction.
  - cbn [eval_section fmap list_fmap snd]. split.
    + intros [m Hm] y Hy.
      destruct (eval_entry σ e) as [v |] eqn:Hv; [| discriminate].
      cbn in Hm.
      destruct (eval_section σ d) as [m' |] eqn:Hd; [| discriminate].
      apply elem_of_cons in Hy as [<- | Hy].
      * cbn in Hv. eauto.
      * apply (proj1 IH); [eauto | exact Hy].
    + intros H.
      assert (He : is_Some (eval_entry σ e)).
      { destruct e as [v | z]; cbn; [eauto |].
        apply H. apply list_elem_of_here. }
      assert (Hd : is_Some (eval_section σ d)).
      { apply IH. intros y Hy. apply H. apply list_elem_of_further.
        exact Hy. }
      destruct He as [v ->], Hd as [m' ->]. cbn. eauto.
Qed.

(** X14. When [x[k] = {...}] fails: exactly when [x] is not bound to a
    dictionary or a variable of the literal is unbound. *)
Theorem assignment_succeeds_iff (D : list string) (σ : store)
    (tr : list call) (x k : string) (d : section_lit) :
  shaped D σ ->
  is_Some (exec_stmt (SSetSection x k d) (σ, tr))
  <-> (exists l, vars σ !! x = Some (VRef l))
      ∧ ∀ y, Var y ∈ d.*2 -> is_Some (vars σ !! y).
Proof.
  intros Hs. rewrite <- eval_section_is_Some. split.
  - intros [st Hst]. cbn in Hst.
    destruct (vars σ !! x) as [v |]; [| discriminate]. cbn in Hst.
    destruct v as [| | | | | | l]; try discriminate.
    split; [eauto |].
    unfold set_section in Hst.
    destruct (eval_section σ d); [eauto | discriminate].
  - intros [[l Hx] [m Hm]].
    destruct (assign_step D σ tr x k d l m Hs Hx Hm) as (σ' & c & Hex & _).
    rewrite Hex. eauto.
Qed.

End StoreLaws.

(** ** Laws of the printing block *)

Section PrintLaws.
Open Scope R_scope.

Lemma np_round_idem (d : nat) (x : R) :
  np_round d (np_round d x) = np_round d x.
Proof.
  change (np_round d x) with (dec (round_half_even (x * 10 ^ d)) d).
  apply np_round_dec.
Qed.

(** X7. Printing what was printed changes nothing: a second rounding of the
    output lines leaves them as they are. *)
Theorem print_block_idempotent (res : result) (ref : list C) :
  let o := print_block res ref in
  map (Cround 5) (out_solution o) = out_solution o
  ∧ map (Cround 5) (out_classical o) = out_classical o
  ∧ format_f (out_probability o) = out_probability o
  ∧ format_f (out_fidelity o) = out_fidelity o.
Proof.
  assert (Hmap : ∀ v, map (Cround 5) (map (Cround 5) v) = map (Cround 5) v).
  { intros v. induction v as [| z v IH]; [reflexivity |].
    cbn [map]. rewrite IH. f_equal.
    unfold Cround. cbn [re im]. rewrite !np_round_idem. reflexivity. }
  unfold print_block. cbn [out_solution out_classical out_probability
                           out_fidelity].
  split; [apply Hmap |]. split; [apply Hmap |].
  split; apply np_round_idem.
Qed.

Lemma round_half_even_mono (x y : R) :
  x <= y -> (round_half_even x <= round_half_even y)%Z.
Proof.
  intros Hxy.
  destruct (Z_le_gt_dec (round_half_even x) (round_half_even y))
    as [H | H]; [exact H | exfalso].
  pose proof (round_half_even_close x) as Hx.
  pose proof (round_half_even_close y) as Hy.
  assert (H1 : IZR (round_half_even y) + 1 <= IZR (round_half_even x)).
  { rewrite <- plus_IZR. apply IZR_le. lia. }
  unfold Rabs in Hx, Hy.
  destruct (Rcase_abs (IZR (round_half_even x) - x)),
           (Rcase_abs (IZR (round_half_even y) - y));
    assert (E : x = y) by lra; rewrite E in H; lia.
Qed.

Lemma np_round_mono (d : nat) (x y : R) :
  x <= y -> np_round d x <= np_round d y.
Proof.
  intros Hxy. pose proof (pow10_pos d) as Hp. unfold np_round.
  apply Rmult_le_compat_r; [left; apply Rinv_0_lt_compat; exact Hp |].
  apply IZR_le, round_half_even_mono.
  apply Rmult_le_compat_r; lra.
Qed.

(** X8. Printing keeps the order of numbers, so a strict order between two
    printed probabilities (or fidelities) is an order between the numbers
    themselves. *)
Theorem printed_order_reflects (x y : R) :
  format_f x < format_f y -> x < y.
Proof.
  intros H. destruct (Rlt_le_dec x y) as [Hlt | Hge]; [exact Hlt |].
  pose proof (np_round_mono 6 y x Hge) as Hm. unfold format_f in H. lra.
Qed.

End PrintLaws.

(** ** The laws at the inputs of the notebook *)

Section Witnesses.
Open Scope R_scope.


Lemma store_after_cell3_run :
  run (cell2 ++ cell3)%list = Some (store_after_cell3, []).
Proof. vm_refl. Qed.

Lemma store_after_cell3_shaped : shaped names store_after_cell3.
Proof.
  apply (exec_shaped names (cell2 ++ cell3)%list empty_store
           store_after_cell3 [] [] (shaped_empty names));
    [vm_refl | exact store_after_cell3_run].
Qed.


Lemma params_bound : vars store_after_cell3 !! "params" = Some (VRef 0%nat).
Proof. vm_refl. Qed.

Lemma scale_lit_value :
  eval_section store_after_cell3 scale_lit
  = Some {[ "scale" := VFloat 5 10 ]}.
Proof. vm_refl. Qed.

Lemma negative_lit_value :
  eval_section store_after_cell3 negative_lit
  = Some {[ "negative_evals" := VBool true ]}.
Proof. vm_refl. Qed.

Lemma assignment_replaces_section_witness :
  shaped names store_after_cell3
  ∧ vars store_after_cell3 !! "params" = Some (VRef 0%nat)
  ∧ eval_section store_after_cell3 scale_lit
    = Some {[ "scale" := VFloat 5 10 ]}
  ∧ exists (σ' : store) (c : config),
      exec_stmt (SSetSection "params" "reciprocal" scale_lit)
                (store_after_cell3, []) = Some (σ', [])
      ∧ vars σ' = vars store_after_cell3
      ∧ config_of store_after_cell3 "params" = Some c
      ∧ (∀ y, vars store_after_cell3 !! y = Some (VRef 0%nat) ->
           config_of σ' y
           = Some (<["reciprocal" := {[ "scale" := VFloat 5 10 ]}]> c))
      ∧ (∀ y l1, vars store_after_cell3 !! y = Some (VRef l1) ->
           l1 ≠ 0%nat -> config_of σ' y = config_of store_after_cell3 y).
Proof.
  split; [exact store_after_cell3_shaped |].
  split; [exact params_bound |].
  split; [exact scale_lit_value |].
  exact (assignment_replaces_section names store_after_cell3 [] "params"
           "reciprocal" scale_lit 0%nat _ store_after_cell3_shaped
           params_bound scale_lit_value).
Defined.

Lemma last_assignment_wins_witness :
  shaped names store_after_cell3
  ∧ plain_section names scale_lit = true
  ∧ exists (σ12 σ2 : store) (c : config),
      exec [SSetSection "params" "reciprocal" scale_lit;
            SSetSection "params" "reciprocal" negative_lit]
           (store_after_cell3, []) = Some (σ12, [])
      ∧ exec [SSetSection "params" "reciprocal" negative_lit]
             (store_after_cell3, []) = Some (σ2, [])
      ∧ config_of store_after_cell3 "params" = Some c
      ∧ config_of σ12 "params"
        = Some (<["reciprocal" := {[ "negative_evals" := VBool true ]}]> c)
      ∧ config_of σ2 "params"
        = Some (<["reciprocal" := {[ "negative_evals" := VBool true ]}]> c).
Proof.
  split; [exact store_after_cell3_shaped |].
  split; [reflexivity |].
  exact (last_assignment_wins names store_after_cell3 [] "params"
           "reciprocal" scale_lit negative_lit 0%nat _ _
           store_after_cell3_shaped eq_refl params_bound scale_lit_value
           negative_lit_value).
Defined.

Lemma assignments_commute_witness :
  shaped names store_after_cell3
  ∧ "reciprocal" ≠ "eigs"
  ∧ exists (σ12 σ21 : store) (c : config),
      exec [SSetSection "params" "reciprocal" scale_lit;
            SSetSection "params" "eigs" negative_lit]
           (store_after_cell3, []) = Some (σ12, [])
      ∧ exec [SSetSection "params" "eigs" negative_lit;
              SSetSection "params" "reciprocal" scale_lit]
             (store_after_cell3, []) = Some (σ21, [])
      ∧ config_of store_after_cell3 "params" = Some c
      ∧ config_of σ12 "params"
        = Some (<["eigs" := {[ "negative_evals" := VBool true ]}]>
                  (<["reciprocal" := {[ "scale" := VFloat 5 10 ]}]> c))
      ∧ config_of σ21 "params" = config_of σ12 "params".
Proof.
  split; [exact store_after_cell3_shaped |].
  assert (Hne : "reciprocal" ≠ "eigs") by discriminate.
  split; [exact Hne |].
  exact (assignments_commute names store_after_cell3 [] "params"
           "reciprocal" "eigs" scale_lit negative_lit 0%nat _ _
           store_after_cell3_shaped eq_refl eq_refl params_bound Hne
           scale_lit_value negative_lit_value).
Defined.

Lemma params2_named : "params2" ∈ names.
Proof. apply (bool_decide_unpack _). vm_compute. exact I. Qed.

Lemma alias_then_assign_witness :
  shaped names store_after_cell3
  ∧ "params2" ∈ names
  ∧ exists (σ' : store) (c : config),
      exec [SAlias "params2" "params";
            SSetSection "params2" "reciprocal" scale_lit]
           (store_after_cell3, []) = Some (σ', [])
      ∧ config_of store_after_cell3 "params" = Some c
      ∧ config_of σ' "params"
        = Some (<["reciprocal" := {[ "scale" := VFloat 5 10 ]}]> c)
      ∧ config_of σ' "params2"
        = Some (<["reciprocal" := {[ "scale" := VFloat 5 10 ]}]> c).
Proof.
  split; [exact store_after_cell3_shaped |].
  split; [exact params2_named |].
  exact (alias_then_assign names store_after_cell3 [] "params" "params2"
           "reciprocal" scale_lit 0%nat _ store_after_cell3_shaped
           params2_named eq_refl params_bound scale_lit_value).
Defined.

Lemma assignment_succeeds_iff_witness :
  shaped names store_after_cell3
  ∧ is_Some (exec_stmt (SSetSection "params" "input" input_lit)
                       (store_after_cell3, []))
  ∧ ¬ is_Some (exec_stmt (SSetSection "matrix" "input" input_lit)
                         (store_after_cell3, []))
  ∧ ¬ is_Some (exec_stmt (SSetSection "params" "input" [("m", Var "m")])
                         (store_after_cell3, [])).
Proof.
  split; [exact store_after_cell3_shaped |].
  pose proof (assignment_succeeds_iff names store_after_cell3 []
                "params" "input" input_lit store_after_cell3_shaped) as H1.
  pose proof (assignment_succeeds_iff names store_after_cell3 []
                "matrix" "input" input_lit store_after_cell3_shaped) as H2.
  pose proof (assignment_succeeds_iff names store_after_cell3 []
                "params" "input" [("m", Var "m")] store_after_cell3_shaped)
    as H3.
  split; [| split].
  - apply H1. split; [exists 0%nat; exact params_bound |].
    intros y Hy. cbn in Hy.
    repeat (apply elem_of_cons in Hy as [Hy | Hy]; try discriminate Hy).
    + injection Hy as ->. vm_compute. eauto.
    + injection Hy as ->. vm_compute. eauto.
    + apply elem_of_nil in Hy. contradiction.
  - intros H. apply H2 in H as [[l Hl] _]. vm_compute in Hl. discriminate.
  - intros H. apply H3 in H as [_ Hv].
    destruct (Hv "m" ltac:(apply list_elem_of_here)) as [v Hm].
    vm_compute in Hm. discriminate.
Defined.

(** The solution cell 4 shows, against (1,2). *)

Lemma run1_solution_nonzero : norm (solution Replay.result1) <> 0.
Proof.
  apply norm_nonzero. unfold Replay.result1. cbn [solution].
  unfold r5, c5, dec. cplx. lra.
Qed.

Lemma run1_reference_nonzero : norm [RtoC 1; RtoC 2] <> 0.
Proof. apply norm_nonzero. cplx. lra. Qed.

Lemma run1_lengths :
  length (solution Replay.result1) = length [RtoC 1; RtoC 2].
Proof. reflexivity. Qed.

Lemma fidelity_symmetric_witness :
  length (solution Replay.result1) = length [RtoC 1; RtoC 2]
  ∧ norm (solution Replay.result1) <> 0
  ∧ norm [RtoC 1; RtoC 2] <> 0
  ∧ fidelity (solution Replay.result1) [RtoC 1; RtoC 2]
    = fidelity [RtoC 1; RtoC 2] (solution Replay.result1).
Proof.
  split; [exact run1_lengths |].
  split; [exact run1_solution_nonzero |].
  split; [exact run1_reference_nonzero |].
  exact (fidelity_symmetric _ _ run1_lengths run1_solution_nonzero
           run1_reference_nonzero).
Defined.

Lemma printed_probabilities_ordered :
  format_f (dec 24630 6) < format_f (dec 361437 6).
Proof. unfold format_f. rewrite !np_round_dec. unfold dec. lra. Qed.

Lemma printed_order_reflects_witness :
  format_f (dec 24630 6) < format_f (dec 361437 6)
  ∧ dec 24630 6 < dec 361437 6.
Proof.
  split; [exact printed_probabilities_ordered |].
  exact (printed_order_reflects _ _ printed_probabilities_ordered).
Defined.

End Witnesses.
